(** * Chat2DB client: the table-column editor and the panel toggle

    A shallow embedding of
    [chat2db-client/src/blocks/DatabaseTableEditor/ColumnList/index.tsx]
    (the [ColumnList] component) and of the panel-toggle component, with the
    properties of their list operations.

    React state is passed explicitly: every handler of the component is a
    function from the component state (the three [useState] cells) to the
    next state.  JavaScript arrays are lists, array indices are integers
    (so that [findIndex]'s [-1] keeps its meaning), and an operation that
    would leave a value that is not a row in the array ([undefined], a hole)
    returns [None]. *)

From stdpp Require Import base decidable option numbers list strings.

Local Open Scope Z_scope.

(** ** JavaScript values held by a column's fields *)

(** The values a field of a column record holds.  Numbers are only stored and
    copied by the component, never computed with; they are integers here. *)
Inductive jsval : Type :=
  | JNull
  | JUndefined
  | JBool (b : bool)
  | JNum (z : Z)
  | JStr (s : string).

(** JavaScript's truthiness, the test of [value ? 1 : 0]. *)
Definition truthy (v : jsval) : bool :=
  match v with
  | JNull | JUndefined => false
  | JBool b => b
  | JNum z => negb (z =? 0)
  | JStr s => negb (bool_decide (s = ""%string))
  end.

(** ** Column records *)

(** [IColumnItem]: the declaration lives in [@/typings]; the fields are the
    ones [createInitialData] lists.  [key] is the locally generated row
    identifier. *)
Record IColumnItem : Type := mkColumn {
  key : string;
  name : jsval;
  columnSize : jsval;
  columnType : jsval;
  nullable : jsval;
  comment : jsval;
  primaryKey : jsval;
  defaultValue : jsval;
  dataType : jsval;
  autoIncrement : jsval;
  numericPrecision : jsval;
  numericScale : jsval;
  characterMaximumLength : jsval;
}.

(** [{ ...t, key: k }] *)
Definition with_key (k : string) (t : IColumnItem) : IColumnItem :=
  mkColumn k (name t) (columnSize t) (columnType t) (nullable t) (comment t)
    (primaryKey t) (defaultValue t) (dataType t) (autoIncrement t)
    (numericPrecision t) (numericScale t) (characterMaximumLength t).

(** The names of the form items the table renders (the [Form.Item]s of the
    five editable columns); [onFieldsChange] reports a change of one of them. *)
Inductive FieldName : Type :=
  | FName | FColumnSize | FColumnType | FNullable | FComment.

(** [{ ...item, [name]: value }] *)
Definition with_field (n : FieldName) (v : jsval) (t : IColumnItem) : IColumnItem :=
  match n with
  | FName =>
      mkColumn (key t) v (columnSize t) (columnType t) (nullable t) (comment t)
        (primaryKey t) (defaultValue t) (dataType t) (autoIncrement t)
        (numericPrecision t) (numericScale t) (characterMaximumLength t)
  | FColumnSize =>
      mkColumn (key t) (name t) v (columnType t) (nullable t) (comment t)
        (primaryKey t) (defaultValue t) (dataType t) (autoIncrement t)
        (numericPrecision t) (numericScale t) (characterMaximumLength t)
  | FColumnType =>
      mkColumn (key t) (name t) (columnSize t) v (nullable t) (comment t)
        (primaryKey t) (defaultValue t) (dataType t) (autoIncrement t)
        (numericPrecision t) (numericScale t) (characterMaximumLength t)
  | FNullable =>
      mkColumn (key t) (name t) (columnSize t) (columnType t) v (comment t)
        (primaryKey t) (defaultValue t) (dataType t) (autoIncrement t)
        (numericPrecision t) (numericScale t) (characterMaximumLength t)
  | FComment =>
      mkColumn (key t) (name t) (columnSize t) (columnType t) (nullable t) v
        (primaryKey t) (defaultValue t) (dataType t) (autoIncrement t)
        (numericPrecision t) (numericScale t) (characterMaximumLength t)
  end.

(** ** JavaScript arrays *)

Section JsArray.
Context {T : Type}.

Fixpoint findIndex_from (p : T → bool) (a : list T) (i : Z) : Z :=
  match a with
  | [] => -1
  | x :: a' => if p x then i else findIndex_from p a' (i + 1)
  end.

(** [a.findIndex(p)]: the index of the first element satisfying [p], or [-1]. *)
Definition findIndex (p : T → bool) (a : list T) : Z := findIndex_from p a 0.

(** [a[i]]: [None] stands for [undefined]. *)
Definition array_get (a : list T) (i : Z) : option T :=
  if bool_decide (0 ≤ i) then a !! Z.to_nat i else None.

(** [a[i] = v]: replaces inside the array and appends at [i = a.length];
    further out the array would get holes, and a negative [i] is not an
    index at all: [None]. *)
Definition array_set (a : list T) (i : Z) (v : T) : option (list T) :=
  if bool_decide (0 ≤ i < Z.of_nat (length a)) then Some (<[Z.to_nat i := v]> a)
  else if bool_decide (i = Z.of_nat (length a)) then Some (a ++ [v])
  else None.

(** The start position [splice] works at: a negative [start] counts from
    the end, and the result is clamped to [0 .. len]. *)
Definition splice_start (len start : Z) : Z :=
  if bool_decide (start < 0) then Z.max (len + start) 0 else Z.min start len.

(** Modelled from the spec: [arrayMove] is imported from
    [@dnd-kit/sortable] and is not among the sources.  The specification
    says of the drag reorder that it moves exactly one row to the
    dropped-at position, preserving all other rows' relative order; that
    is the library's function, which takes the element at [from] out and
    puts it back at [to]:
<<
    const newArray = array.slice();
    newArray.splice(to < 0 ? newArray.length + to : to, 0,
                    newArray.splice(from, 1)[0]);
    return newArray;
>>
    The arguments are evaluated left to right, so a negative [to] is
    resolved against the length before the removal.  When nothing is
    removed (only possible on an empty array, or with [from] past the end)
    [undefined] is inserted: [None]. *)
Definition arrayMove (array : list T) (from to : Z) : option (list T) :=
  let newArray := array in
  let to' := if bool_decide (to < 0) then Z.of_nat (length newArray) + to else to in
  let s := Z.to_nat (splice_start (Z.of_nat (length newArray)) from) in
  let removed := newArray !! s in
  let newArray := take s newArray ++ drop (S s) newArray in
  match removed with
  | None => None
  | Some x =>
      let t := Z.to_nat (splice_start (Z.of_nat (length newArray)) to') in
      Some (take t newArray ++ x :: drop t newArray)
  end.
End JsArray.

(** ** Generated identifiers *)

(** [uuidv4()] returns a new random string at each call.  The identifiers the
    calls of one operation return are given as a sequence; a computation that
    draws identifiers takes the first one and passes the rest on. *)
Definition Uuids : Type := nat → string.
Definition Gen (A : Type) : Type := Uuids → A * Uuids.

Definition gen_ret {A} (x : A) : Gen A := λ u, (x, u).
Definition gen_bind {A B} (m : Gen A) (f : A → Gen B) : Gen B :=
  λ u, let '(x, u') := m u in f x u'.

Notation "x ←ᵍ m ; k" := (gen_bind m (λ x, k))
  (at level 20, m at level 100, k at level 200, only parsing).

Definition uuidv4 : Gen string := λ u, (u 0%nat, λ n, u (S n)).

(** [a.map(f)] for an [f] that draws identifiers, element by element. *)
Fixpoint gen_map {A B} (f : A → Gen B) (a : list A) : Gen (list B) :=
  match a with
  | [] => gen_ret []
  | x :: a' => y ←ᵍ f x; ys ←ᵍ gen_map f a'; gen_ret (y :: ys)
  end.

Definition createInitialData : Gen IColumnItem :=
  k ←ᵍ uuidv4;
  gen_ret (mkColumn k JNull JNull JNull JNull JNull JNull JNull JNull JNull
             JNull JNull JNull).

(** ** The component state *)

(** The three [useState] cells of [ColumnList].  The antd form instance is
    not part of it: no handler below reads the form's store
    ([handelFieldsChange] gets the changed field as its argument). *)
Record State : Type := mkState {
  dataSource : list IColumnItem;
  editingKey : string;
  databaseFieldTypeList : list string;
}.

Definition setDataSource (l : list IColumnItem) (s : State) : State :=
  mkState l (editingKey s) (databaseFieldTypeList s).
Definition setEditingKey (k : string) (s : State) : State :=
  mkState (dataSource s) k (databaseFieldTypeList s).
Definition setDatabaseFieldTypeList (l : list string) (s : State) : State :=
  mkState (dataSource s) (editingKey s) l.

(** The state at mount: one blank row, no row in edit mode, no type options. *)
Definition initialState : Gen State :=
  r ←ᵍ createInitialData;
  gen_ret (mkState [r] ""%string []).

Definition isEditing (s : State) (record : IColumnItem) : bool :=
  bool_decide (key record = editingKey s).

(** [edit]: [form.setFieldsValue] touches the form only. *)
Definition edit (record : IColumnItem) (s : State) : State :=
  setEditingKey (key record) s.

(** *** Loading the table details *)

(** The [tableDetails] of the context; its column list may be absent. *)
Record TableDetails : Type := mkTableDetails {
  columnList : option (list IColumnItem);
}.

(** The effect on [tableDetails]: [None] is a falsy [tableDetails].  An
    array, empty or not, is truthy, so [|| []] only replaces an absent
    column list. *)
Definition onTableDetails (tableDetails : option TableDetails) (s : State) : Gen State :=
  match tableDetails with
  | Some td =>
      list ←ᵍ match columnList td with
              | Some cl => gen_map (λ t, k ←ᵍ uuidv4; gen_ret (with_key k t)) cl
              | None => gen_ret []
              end;
      gen_ret (setDataSource list s)
  | None => gen_ret s
  end.

(** *** Fetching the field types *)

(** An entry of the backend's answer; only [typeName] is read. *)
Record FieldType : Type := mkFieldType { typeName : string }.

(** How the promise of [sqlService.getDatabaseFieldTypeList] settles. *)
Inductive Settled : Type :=
  | Resolved (res : list FieldType)
  | Rejected.

(** The [then] callback runs on fulfilment only; there is no [catch]. *)
Definition onFieldTypeList (p : Settled) (s : State) : State :=
  match p with
  | Resolved res => setDatabaseFieldTypeList (typeName <$> res) s
  | Rejected => s
  end.

(** *** Drag and drop *)

(** [DragEndEvent]: [over] is [null] when the row is dropped on no target,
    and then [over?.id] is [undefined]: [None]. *)
Record DragEndEvent : Type := mkDragEnd {
  active_id : string;
  over_id : option string;
}.

(** [k === id] for a string [k] and an [id] that may be [undefined]. *)
Definition key_is (k : string) (id : option string) : bool :=
  bool_decide (Some k = id).

Definition onDragEnd (ev : DragEndEvent) (s : State) : option State :=
  if bool_decide (Some (active_id ev) ≠ over_id ev) then
    let previous := dataSource s in
    let activeIndex := findIndex (λ i, key_is (key i) (Some (active_id ev))) previous in
    let overIndex := findIndex (λ i, key_is (key i) (over_id ev)) previous in
    l ← arrayMove previous activeIndex overIndex;
    Some (setDataSource l s)
  else Some s.

(** *** Editing a field *)

(** The changed field [field[0]]: the first entry of its name path and its
    value. *)
Record FieldData : Type := mkFieldData {
  field_name : FieldName;
  field_value : jsval;
}.

Definition handelFieldsChange (field : FieldData) (s : State) : State :=
  let name := field_name field in
  let value := field_value field in
  let value :=
    match name with
    | FNullable => if truthy value then JNum 1 else JNum 0
    | _ => value
    end in
  let newData :=
    (λ item, if bool_decide (key item = editingKey s)
             then with_field name value item else item) <$> dataSource s in
  setDataSource newData s.

(** *** The buttons *)

Definition addData (s : State) : Gen State :=
  newData ←ᵍ createInitialData;
  gen_ret (edit newData (setDataSource (dataSource s ++ [newData]) s)).

Definition deleteData (s : State) : State :=
  setDataSource (filter (λ i, key i ≠ editingKey s) (dataSource s)) s.

Inductive Action : Type := up | down.

Definition moveData (action : Action) (s : State) : option State :=
  let index := findIndex (λ i, bool_decide (key i = editingKey s)) (dataSource s) in
  if bool_decide (index = -1) then Some s
  else
    match action with
    | up =>
        if bool_decide (index = 0) then Some s
        else
          let newData := dataSource s in
          x ← array_get (dataSource s) (index - 1);
          newData ← array_set newData index x;
          y ← array_get (dataSource s) index;
          newData ← array_set newData (index - 1) y;
          Some (setDataSource newData s)
    | down =>
        if bool_decide (index = Z.of_nat (length (dataSource s)) - 1) then Some s
        else
          let newData := dataSource s in
          x ← array_get (dataSource s) (index + 1);
          newData ← array_set newData index x;
          y ← array_get (dataSource s) index;
          newData ← array_set newData (index + 1) y;
          Some (setDataSource newData s)
    end.

Definition getColumnListInfo (s : State) : list IColumnItem := dataSource s.

(** ** The component as a transition system *)

Inductive Event : Type :=
  | EvTableDetails (tableDetails : option TableDetails)
  | EvFieldTypeList (p : Settled)
  | EvEdit (record : IColumnItem)
  | EvDragEnd (ev : DragEndEvent)
  | EvFieldsChange (field : FieldData)
  | EvAdd
  | EvDelete
  | EvMove (action : Action).

(** One event handled in state [s]; [u] holds the identifiers [uuidv4]
    returns while it is handled. *)
Definition step (u : Uuids) (s : State) (e : Event) : option State :=
  match e with
  | EvTableDetails td => Some (onTableDetails td s u).1
  | EvFieldTypeList p => Some (onFieldTypeList p s)
  | EvEdit record => Some (edit record s)
  | EvDragEnd ev => onDragEnd ev s
  | EvFieldsChange field => Some (handelFieldsChange field s)
  | EvAdd => Some (addData s u).1
  | EvDelete => Some (deleteData s)
  | EvMove action => moveData action s
  end.

(** ** The panel toggle *)

(** The two layout flags of the workspace store. *)
Record Layout : Type := mkLayout {
  panelLeft : bool;
  panelRight : bool;
}.

(** Modelled from the spec: the store actions [togglePanelLeft] and
    [togglePanelRight] of [@/store/workspace] are not among the sources; the
    specification says of them that toggling flips the current value of the
    panel's flag, without validation. *)
Definition togglePanelLeft (l : Layout) : Layout :=
  mkLayout (negb (panelLeft l)) (panelRight l).
Definition togglePanelRight (l : Layout) : Layout :=
  mkLayout (panelLeft l) (negb (panelRight l)).

(** The two click regions of the component, in the order it renders them. *)
Inductive IconPanel : Type := LeftIcon | RightIcon.

(** [onClick] of each region. *)
Definition onClick (p : IconPanel) : Layout → Layout :=
  match p with
  | LeftIcon => togglePanelLeft
  | RightIcon => togglePanelRight
  end.

(** ** Vocabulary of the properties *)

(** The blank row with key [k]: every column field is [null]. *)
Definition row (k : string) : IColumnItem :=
  mkColumn k JNull JNull JNull JNull JNull JNull JNull JNull JNull JNull JNull JNull.

(** The column fields of a record, the key left out. *)
Definition fields (t : IColumnItem) : list jsval :=
  [name t; columnSize t; columnType t; nullable t; comment t; primaryKey t;
   defaultValue t; dataType t; autoIncrement t; numericPrecision t;
   numericScale t; characterMaximumLength t].

(** The keys of the rows, in order. *)
Definition keys (l : list IColumnItem) : list string := key <$> l.

(** No row of [l] has key [k]. *)
Definition no_key (k : string) (l : list IColumnItem) : Prop :=
  Forall (λ r, key r ≠ k) l.

(** The key [k] identifies the row at position [i] of [l]: it is the first
    row with that key (the only one when the keys are pairwise distinct). *)
Definition identifies (l : list IColumnItem) (k : string) (i : nat) : Prop :=
  (∃ r, l !! i = Some r ∧ key r = k) ∧
  ∀ j r, (j < i)%nat → l !! j = Some r → key r ≠ k.

(** After the row at position [i] has been moved to position [j], the row at
    position [k] is the one that was at position [moved_from i j k]: the
    moved row sits at [j], the rows between the two positions have shifted
    by one towards [i], the others have stayed. *)
Definition moved_from (i j k : nat) : nat :=
  if decide (k = j) then i
  else if decide (i ≤ k < j)%nat then S k
  else if decide (j < k ≤ i)%nat then pred k
  else k.

(** The reading of the drag reorder as an exchange of the two rows. *)
Definition drag_swaps_rows : Prop :=
  ∀ (s : State) (ev : DragEndEvent) (o : string) (i j : nat),
    over_id ev = Some o →
    identifies (dataSource s) (active_id ev) i →
    identifies (dataSource s) o j →
    i ≠ j →
    ∃ l, onDragEnd ev s = Some (setDataSource l s) ∧
         l !! j = dataSource s !! i ∧
         l !! i = dataSource s !! j ∧
         ∀ k, k ≠ i → k ≠ j → l !! k = dataSource s !! k.

(** The identifiers an event draws are fresh: the one [addData] draws is the
    key of no row of the list, and the ones a reload draws, one per column
    of the new list, are pairwise distinct. *)
Definition fresh (u : Uuids) (s : State) (e : Event) : Prop :=
  match e with
  | EvAdd => u 0%nat ∉ keys (dataSource s)
  | EvTableDetails (Some td) =>
      NoDup (u <$> seq 0 (length (default [] (columnList td))))
  | _ => True
  end.

(** A drag ends only where there is a row to drag. *)
Definition draggable (s : State) (e : Event) : Prop :=
  match e with
  | EvDragEnd _ => dataSource s ≠ []
  | _ => True
  end.

(** A sequence of events, each with the identifiers drawn while it is
    handled. *)
Fixpoint run (s : State) (tr : list (Uuids * Event)) : option State :=
  match tr with
  | [] => Some s
  | (u, e) :: tr' => s' ← step u s e; run s' tr'
  end.

(** The backend call has answered with a result. *)
Definition is_resolved (e : Event) : bool :=
  match e with
  | EvFieldTypeList (Resolved _) => true
  | _ => false
  end.

(** A sequence of events is admissible from [s] when each event, in the
    state it is handled in, draws fresh identifiers and, if it is a drag, has
    a row to drag. *)
Fixpoint admissible (s : State) (tr : list (Uuids * Event)) : Prop :=
  match tr with
  | [] => True
  | (u, e) :: tr' =>
      fresh u s e ∧ draggable s e ∧
      ∀ s', step u s e = Some s' → admissible s' tr'
  end.

(** ** What the components show *)

(** The expression [nullable === 1] of the nullable column's render. *)
Definition nullable_checked (nullable : jsval) : bool :=
  match nullable with
  | JNum 1 => true
  | _ => false
  end.

(** What the nullable column renders for a row.  For the row in edit mode
    the checkbox sits in a [Form.Item] with [valuePropName='checked'], which
    supplies [checked] from the form's value, not from the row; for any other
    row it is a plain checkbox with [checked={nullable === 1}], in a [div]
    whose click calls [edit(record)]. *)
Inductive NullableCell : Type :=
  | FormCheckbox
  | StaticCheckbox (checked : bool).

Definition renderNullable (s : State) (record : IColumnItem) : NullableCell :=
  let editable := isEditing s record in
  if editable then FormCheckbox
  else StaticCheckbox (nullable_checked (nullable record)).

(** The value [handelFieldsChange] stores for a changed field: the nullable
    flag as [1] or [0], any other field as reported. *)
Definition stored_value (field : FieldData) : jsval :=
  match field_name field with
  | FNullable => if truthy (field_value field) then JNum 1 else JNum 0
  | _ => field_value field
  end.

(** The codes of the two icons the panel toggle renders, left and right. *)
Definition panelIcons (l : Layout) : string * string :=
  (if panelLeft l then "&#xe674;" else "&#xe670;",
   if panelRight l then "&#xe672;" else "&#xe673;")%string.

(** * Properties *)

(** ** Array helpers *)

Section JsArrayFacts.
Context {T : Type}.
Implicit Types (p : T → bool) (a l : list T).

Lemma findIndex_from_none p a i :
  Forall (λ x, p x = false) a → findIndex_from p a i = -1.
Proof.
  intros H. revert i. induction H as [|x a Hx _ IH]; intros i; simpl; [done|].
  rewrite Hx. apply IH.
Qed.

Lemma findIndex_from_first p l1 x l2 i :
  Forall (λ y, p y = false) l1 → p x = true →
  findIndex_from p (l1 ++ x :: l2) i = i + Z.of_nat (length l1).
Proof.
  intros H Hx. revert i. induction H as [|y l1 Hy _ IH]; intros i; simpl.
  - rewrite Hx. lia.
  - rewrite Hy, IH. lia.
Qed.

Lemma findIndex_none p a :
  Forall (λ x, p x = false) a → findIndex p a = -1.
Proof. apply findIndex_from_none. Qed.

Lemma findIndex_first p l1 x l2 :
  Forall (λ y, p y = false) l1 → p x = true →
  findIndex p (l1 ++ x :: l2) = Z.of_nat (length l1).
Proof. intros. unfold findIndex. rewrite findIndex_from_first by done. lia. Qed.

Lemma array_get_middle l1 x l2 :
  array_get (l1 ++ x :: l2) (Z.of_nat (length l1)) = Some x.
Proof.
  unfold array_get. rewrite bool_decide_eq_true_2 by lia.
  rewrite Nat2Z.id. apply list_lookup_middle. done.
Qed.

Lemma array_set_middle l1 x l2 v :
  array_set (l1 ++ x :: l2) (Z.of_nat (length l1)) v = Some (l1 ++ v :: l2).
Proof.
  unfold array_set. rewrite length_app. simpl.
  rewrite bool_decide_eq_true_2 by lia.
  rewrite Nat2Z.id. f_equal.
  rewrite insert_app_r_alt by lia. by rewrite Nat.sub_diag.
Qed.
End JsArrayFacts.

Lemma no_key_findIndex k l :
  no_key k l → Forall (λ r, bool_decide (key r = k) = false) l.
Proof.
  intros H. eapply Forall_impl; [exact H|].
  intros r Hr. by apply bool_decide_eq_false_2.
Qed.

Lemma no_key_filter k l : no_key k l → filter (λ i, key i ≠ k) l = l.
Proof.
  induction 1 as [|r l Hr _ IH]; [done|].
  rewrite filter_cons_True by done. by rewrite IH.
Qed.

(** ** Move up, move down *)

Lemma snoc_middle {T} (l1 : list T) q r l2 :
  l1 ++ q :: r :: l2 = (l1 ++ [q]) ++ r :: l2.
Proof. by rewrite <- app_assoc. Qed.

Lemma findIndex_key s l1 r l2 :
  dataSource s = l1 ++ r :: l2 →
  no_key (editingKey s) l1 → key r = editingKey s →
  findIndex (λ i, bool_decide (key i = editingKey s)) (dataSource s)
  = Z.of_nat (length l1).
Proof.
  intros -> Hno Hr. apply findIndex_first.
  - by apply no_key_findIndex.
  - by apply bool_decide_eq_true_2.
Qed.

Lemma moveData_up_swap l1 q r l2 s :
  dataSource s = l1 ++ q :: r :: l2 →
  no_key (editingKey s) (l1 ++ [q]) → key r = editingKey s →
  moveData up s = Some (setDataSource (l1 ++ r :: q :: l2) s).
Proof.
  intros Hds Hno Hr. unfold moveData.
  rewrite (findIndex_key s (l1 ++ [q]) r l2) by (by rewrite <- ?snoc_middle).
  rewrite Hds, length_app. simpl.
  rewrite !bool_decide_eq_false_2 by lia.
  replace (Z.of_nat (length l1 + 1) - 1) with (Z.of_nat (length l1)) by lia.
  rewrite array_get_middle. simpl.
  replace (Z.of_nat (length l1 + 1)) with (Z.of_nat (length (l1 ++ [q])))
    by (by rewrite length_app).
  rewrite snoc_middle, array_set_middle, array_get_middle. simpl.
  rewrite <- app_assoc. simpl.
  by rewrite array_set_middle.
Qed.

Lemma moveData_down_swap l1 r q l2 s :
  dataSource s = l1 ++ r :: q :: l2 →
  no_key (editingKey s) l1 → key r = editingKey s →
  moveData down s = Some (setDataSource (l1 ++ q :: r :: l2) s).
Proof.
  intros Hds Hno Hr. unfold moveData.
  rewrite (findIndex_key s l1 r (q :: l2)) by done.
  rewrite Hds, length_app. simpl.
  rewrite !bool_decide_eq_false_2 by lia.
  rewrite array_get_middle.
  replace (Z.of_nat (length l1) + 1) with (Z.of_nat (length (l1 ++ [r])))
    by (rewrite length_app; simpl; lia).
  rewrite (snoc_middle l1 r q l2) at 1. rewrite array_get_middle. simpl.
  rewrite array_set_middle. simpl.
  replace (length (l1 ++ [r])) with (length (l1 ++ [q]))
    by (by rewrite !length_app).
  rewrite snoc_middle, array_set_middle. by rewrite <- app_assoc.
Qed.

Lemma moveData_up_first r l2 s :
  dataSource s = r :: l2 → key r = editingKey s → moveData up s = Some s.
Proof.
  intros Hds Hr. unfold moveData.
  rewrite (findIndex_key s [] r l2); [done|done|constructor|done].
Qed.

Lemma moveData_down_last l1 r s :
  dataSource s = l1 ++ [r] →
  no_key (editingKey s) l1 → key r = editingKey s →
  moveData down s = Some s.
Proof.
  intros Hds Hno Hr. unfold moveData.
  rewrite (findIndex_key s l1 r []) by done.
  rewrite Hds, length_app. simpl.
  rewrite bool_decide_eq_false_2 by lia.
  by rewrite bool_decide_eq_true_2 by lia.
Qed.

Lemma moveData_no_row a s :
  no_key (editingKey s) (dataSource s) → moveData a s = Some s.
Proof.
  intros Hno. unfold moveData.
  rewrite findIndex_none by by apply no_key_findIndex.
  done.
Qed.

(** C3. In a list where exactly one row [r] has the edit key (the list is
    [l1 ++ r :: l2] and no row of [l1] or [l2] has it): move-up with [r]
    first and move-down with [r] last leave the state as it is; otherwise
    move-up exchanges [r] with the row just before it and move-down with the
    row just after it, every other row keeping its position. *)
Theorem moveData_swaps_neighbours (s : State) (l1 l2 : list IColumnItem)
    (r : IColumnItem) :
  dataSource s = l1 ++ r :: l2 →
  key r = editingKey s →
  no_key (editingKey s) (l1 ++ l2) →
  (l1 = [] → moveData up s = Some s) ∧
  (l2 = [] → moveData down s = Some s) ∧
  (∀ l1' q, l1 = l1' ++ [q] →
     moveData up s = Some (setDataSource (l1' ++ r :: q :: l2) s)) ∧
  (∀ q l2', l2 = q :: l2' →
     moveData down s = Some (setDataSource (l1 ++ q :: r :: l2') s)).
Proof.
  intros Hds Hr Hno. apply Forall_app in Hno as [Hno1 Hno2].
  repeat split.
  - intros ->. by apply (moveData_up_first r l2).
  - intros ->. by apply (moveData_down_last l1 r).
  - intros l1' q ->. apply moveData_up_swap; [|done..].
    by rewrite Hds, <- app_assoc.
  - intros q l2' ->. by apply moveData_down_swap.
Qed.

Lemma moveData_swaps_neighbours_witness :
  moveData up (mkState [row "a"; row "b"; row "c"] "b" [])
  = Some (mkState [row "b"; row "a"; row "c"] "b" []).
Proof.
  exact (proj1 (proj2 (proj2
    (moveData_swaps_neighbours (mkState [row "a"; row "b"; row "c"] "b" [])
       [row "a"] [row "c"] (row "b") eq_refl eq_refl
       ltac:(repeat constructor; discriminate)))) [] (row "a") eq_refl).
Defined.

(** C10. When no row has the edit key, delete, move-up and move-down leave
    the column list (and the rest of the state) as it is; this is the case
    when the edit key is still the initial empty string and every row key is
    a non-empty identifier. *)
Theorem no_editing_row_noop (s : State) :
  no_key (editingKey s) (dataSource s) →
  deleteData s = s ∧ moveData up s = Some s ∧ moveData down s = Some s.
Proof.
  intros Hno. split; [|split; by apply moveData_no_row].
  unfold deleteData. rewrite no_key_filter by done. by destruct s.
Qed.

Lemma no_editing_row_noop_witness :
  deleteData (mkState [row "a"; row "b"] "" []) = mkState [row "a"; row "b"] "" [].
Proof.
  exact (proj1 (no_editing_row_noop (mkState [row "a"; row "b"] "" [])
                  ltac:(repeat constructor; discriminate))).
Defined.

(** ** Delete *)

Lemma NoDup_keys_middle l1 r l2 :
  NoDup (keys (l1 ++ r :: l2)) → no_key (key r) l1 ∧ no_key (key r) l2.
Proof.
  unfold keys, no_key. rewrite fmap_app, fmap_cons.
  intros H. apply NoDup_app in H as (_ & H1 & H2).
  apply NoDup_cons in H2 as [H2 _].
  split; apply Forall_forall; intros x Hx Heq.
  - apply (H1 (key r)); [|left]. rewrite <- Heq. by apply list_elem_of_fmap_2.
  - apply H2. rewrite <- Heq. by apply list_elem_of_fmap_2.
Qed.

(** C4. With pairwise distinct keys and a row [r] that has the edit key,
    delete removes that row and only it: of the list [l1 ++ r :: l2] it
    leaves [l1 ++ l2], the other rows as they were and in their order. *)
Theorem deleteData_removes_editing_row (s : State) (l1 l2 : list IColumnItem)
    (r : IColumnItem) :
  NoDup (keys (dataSource s)) →
  dataSource s = l1 ++ r :: l2 →
  key r = editingKey s →
  deleteData s = setDataSource (l1 ++ l2) s.
Proof.
  intros Hnd Hds Hr. rewrite Hds in Hnd.
  apply NoDup_keys_middle in Hnd as [H1 H2]. rewrite Hr in H1, H2.
  unfold deleteData. rewrite Hds, filter_app, filter_cons_False by (by intros []).
  by rewrite !no_key_filter.
Qed.

Lemma deleteData_removes_editing_row_witness :
  deleteData (mkState [row "a"; row "b"; row "c"] "b" [])
  = mkState [row "a"; row "c"] "b" [].
Proof.
  apply (deleteData_removes_editing_row
           (mkState [row "a"; row "b"; row "c"] "b" []) [row "a"] [row "c"] (row "b")).
  - apply (@bool_decide_unpack _ (NoDup_dec _)). vm_compute. exact I.
  - reflexivity.
  - reflexivity.
Defined.

(** ** Add *)

(** C5. Add appends one blank row, whose key is the identifier [uuidv4]
    returned, after the rows of the list, which stay as they are; it makes
    that key the edit key, so the new row is in edit mode, and, the
    identifier being fresh, no other row is. *)
Theorem addData_appends_blank_row (u : Uuids) (s : State) :
  (addData s u).1
    = mkState (dataSource s ++ [row (u 0%nat)]) (u 0%nat) (databaseFieldTypeList s)
  ∧ isEditing (addData s u).1 (row (u 0%nat)) = true
  ∧ (u 0%nat ∉ keys (dataSource s) →
     ∀ r, r ∈ dataSource s → isEditing (addData s u).1 r = false).
Proof.
  split; [done|]. split.
  - by apply bool_decide_eq_true_2.
  - intros Hfresh r Hr. apply bool_decide_eq_false_2. simpl. intros Heq.
    apply Hfresh. rewrite <- Heq. by apply list_elem_of_fmap_2.
Qed.

Lemma addData_appends_blank_row_witness :
  isEditing (addData (mkState [row "k0"] "" []) (λ _, "k1")).1 (row "k0") = false.
Proof.
  apply (proj2 (proj2 (addData_appends_blank_row (λ _, "k1")
                         (mkState [row "k0"] "" [])))).
  - apply (@bool_decide_unpack _ (not_dec (list_elem_of_dec _ _))).
    vm_compute. exact I.
  - apply list_elem_of_here.
Defined.

(** ** Loading the table details *)

Lemma gen_map_with_key (cl : list IColumnItem) (u : Uuids) :
  (gen_map (λ t, k ←ᵍ uuidv4; gen_ret (with_key k t)) cl u).1
  = imap (λ i t, with_key (u i) t) cl.
Proof.
  revert u. induction cl as [|t cl IH]; intros u; [done|].
  simpl. unfold gen_bind at 1. simpl.
  specialize (IH (λ n, u (S n))).
  unfold gen_bind at 1.
  destruct (gen_map _ cl _) as [ys u'] eqn:E. simpl in *.
  by rewrite IH.
Qed.

(** C6. When a table-details object arrives, the column list of the state
    becomes the tagged copy of its column list: as long as the source, the
    row at each position carrying the field values of the source record at
    that position and, as its key, the identifier generated for it; it
    becomes the empty list when the object has no column list.  The edit key
    and the type options stay. *)
Theorem onTableDetails_copies_columns (u : Uuids) (s : State) (td : TableDetails) :
  let s' := (onTableDetails (Some td) s u).1 in
  editingKey s' = editingKey s ∧
  databaseFieldTypeList s' = databaseFieldTypeList s ∧
  match columnList td with
  | Some cl =>
      dataSource s' = imap (λ i t, with_key (u i) t) cl ∧
      length (dataSource s') = length cl ∧
      ∀ i t, cl !! i = Some t →
        ∃ r, dataSource s' !! i = Some r ∧ fields r = fields t ∧ key r = u i
  | None => dataSource s' = []
  end.
Proof.
  simpl. unfold onTableDetails, gen_bind.
  destruct (columnList td) as [cl|]; [|done].
  pose proof (gen_map_with_key cl u) as Hmap.
  destruct (gen_map _ cl u) as [l u'] eqn:E. simpl in *. subst l.
  repeat split; try done.
  - by rewrite length_imap.
  - intros i t Hi. exists (with_key (u i) t). split; [|done].
    rewrite list_lookup_imap, Hi. done.
Qed.

Lemma onTableDetails_copies_columns_witness :
  ∃ r, dataSource (onTableDetails (Some (mkTableDetails (Some [row "old"])))
                     (mkState [] "" []) (λ _, "k0")).1 !! 0%nat = Some r ∧
       fields r = fields (row "old") ∧ key r = "k0".
Proof.
  pose proof (onTableDetails_copies_columns (λ _, "k0") (mkState [] "" [])
                (mkTableDetails (Some [row "old"]))) as H.
  cbv zeta in H. cbn [columnList] in H.
  destruct H as (_ & _ & _ & _ & H).
  exact (H 0%nat (row "old") eq_refl).
Defined.

(** ** The panel toggle *)

(** C8. A click on the left region negates the left panel's flag and keeps
    the right one; a click on the right region negates the right panel's
    flag and keeps the left one. *)
Theorem onClick_flips_one_flag (l : Layout) :
  panelLeft (onClick LeftIcon l) = negb (panelLeft l) ∧
  panelRight (onClick LeftIcon l) = panelRight l ∧
  panelRight (onClick RightIcon l) = negb (panelRight l) ∧
  panelLeft (onClick RightIcon l) = panelLeft l.
Proof. by destruct l. Qed.

(** ** The field types *)

Lemma step_keeps_type_options u s e s' :
  step u s e = Some s' → is_resolved e = false →
  databaseFieldTypeList s' = databaseFieldTypeList s.
Proof.
  destruct e as [[td|]|[res|]|record|ev|field| | |a]; simpl; intros Hs He;
    try discriminate; try (by inversion Hs).
  - inversion Hs. unfold onTableDetails, gen_bind.
    destruct (columnList td); [|done].
    by destruct (gen_map _ _ _).
  - unfold onDragEnd in Hs. case_bool_decide; [|by inversion Hs].
    destruct (arrayMove _ _ _); simpl in Hs; [|done]. by inversion Hs.
  - unfold moveData in Hs.
    repeat (case_bool_decide || case_match || simplify_option_eq); done.
Qed.

Lemma run_keeps_type_options tr s s' :
  run s tr = Some s' → Forall (λ ue, is_resolved ue.2 = false) tr →
  databaseFieldTypeList s' = databaseFieldTypeList s.
Proof.
  revert s. induction tr as [|[u e] tr IH]; intros s Hrun Hno; simpl in Hrun.
  - by inversion Hrun.
  - apply Forall_cons in Hno as [He Hno].
    destruct (step u s e) as [s1|] eqn:E; simpl in Hrun; [|done].
    rewrite (IH s1) by done. by apply (step_keeps_type_options u s e).
Qed.

(** C9. In a state the component reaches from its initial state without the
    backend call having succeeded, the type-options list is still empty; if
    the call fails there, nothing of the state changes; if it succeeds with
    the result [res], the list becomes the type names of [res] in order, and
    the column list and the edit key stay. *)
Theorem fieldTypeList_after_call (u0 : Uuids) (tr : list (Uuids * Event)) (s : State) :
  run (initialState u0).1 tr = Some s →
  Forall (λ ue, is_resolved ue.2 = false) tr →
  databaseFieldTypeList s = [] ∧
  onFieldTypeList Rejected s = s ∧
  ∀ res,
    databaseFieldTypeList (onFieldTypeList (Resolved res) s) = typeName <$> res ∧
    dataSource (onFieldTypeList (Resolved res) s) = dataSource s ∧
    editingKey (onFieldTypeList (Resolved res) s) = editingKey s.
Proof.
  intros Hrun Hno. split; [|done].
  by rewrite (run_keeps_type_options tr _ s Hrun Hno).
Qed.

Lemma fieldTypeList_after_call_witness :
  databaseFieldTypeList
    (onFieldTypeList Rejected
       (mkState [row "k0"; row "k1"] "k1" [])) = [].
Proof.
  pose proof (fieldTypeList_after_call (λ _, "k0")
                [(λ _, "k1", EvAdd); (λ _, "", EvFieldTypeList Rejected)]
                (mkState [row "k0"; row "k1"] "k1" [])
                eq_refl ltac:(repeat constructor)) as (H1 & H2 & _).
  rewrite H2. exact H1.
Defined.

(** ** Drag and drop *)

Section ArrayMoveFacts.
Context {T : Type}.
Implicit Types (a l : list T).

Lemma splice_start_in_range (len start : Z) :
  0 ≤ start ≤ len → splice_start len start = start.
Proof.
  intros H. unfold splice_start.
  rewrite bool_decide_eq_false_2 by lia. lia.
Qed.

(** Inside the array, [arrayMove] takes the element out and puts it back
    at the target index. *)
Lemma arrayMove_in_range a (i j : nat) x :
  a !! i = Some x → (j < length a)%nat →
  arrayMove a (Z.of_nat i) (Z.of_nat j)
  = Some (take j (delete i a) ++ x :: drop j (delete i a)).
Proof.
  intros Hi Hj. pose proof (lookup_lt_Some _ _ _ Hi) as Hlt.
  unfold arrayMove. cbv zeta.
  rewrite (bool_decide_eq_false_2 (Z.of_nat j < 0)) by lia.
  rewrite (splice_start_in_range _ (Z.of_nat i)) by lia.
  rewrite Nat2Z.id, Hi, <- delete_take_drop.
  rewrite splice_start_in_range, Nat2Z.id; [done|].
  rewrite length_delete by eauto. lia.
Qed.

Lemma moved_lookup a (i j k : nat) x :
  a !! i = Some x → (j < length a)%nat →
  (take j (delete i a) ++ x :: drop j (delete i a)) !! k
  = a !! moved_from i j k.
Proof.
  intros Hi Hj. pose proof (lookup_lt_Some _ _ _ Hi) as Hlt.
  assert (length (delete i a) = pred (length a)) as Hlen
    by (rewrite length_delete by eauto; lia).
  assert (length (take j (delete i a)) = j) as Htake
    by (rewrite length_take; lia).
  unfold moved_from.
  destruct (decide (k = j)) as [->|Hkj].
  - rewrite list_lookup_middle by done. done.
  - destruct (decide (k < j)%nat) as [Hlt'|Hge].
    + rewrite lookup_app_l by lia. rewrite lookup_take_lt by done.
      rewrite list_lookup_delete.
      repeat case_decide; try lia; done.
    + rewrite lookup_app_r by lia. rewrite Htake.
      destruct (k - j)%nat as [|n] eqn:E; [lia|]. simpl.
      rewrite lookup_drop, list_lookup_delete.
      repeat case_decide; try lia; f_equal; lia.
Qed.

Lemma moved_delete l (j : nat) x :
  (j ≤ length l)%nat → delete j (take j l ++ x :: drop j l) = l.
Proof.
  intros Hj.
  replace j with (length (take j l)) at 1 by (rewrite length_take; lia).
  rewrite delete_middle. apply take_drop.
Qed.
End ArrayMoveFacts.

Lemma identifies_split l k i :
  identifies l k i →
  ∃ r, l !! i = Some r ∧ key r = k ∧ no_key k (take i l).
Proof.
  intros [(r & Hr & Hk) Hfirst]. exists r. repeat split; [done..|].
  apply Forall_lookup. intros j x Hx.
  apply lookup_take_Some in Hx as [Hx Hj]. by apply (Hfirst j).
Qed.

Lemma identifies_findIndex l k i :
  identifies l k i →
  findIndex (λ r, key_is (key r) (Some k)) l = Z.of_nat i.
Proof.
  intros (r & Hr & Hk & Hno)%identifies_split.
  pose proof (lookup_lt_Some _ _ _ Hr) as Hlt.
  rewrite <- (take_drop_middle l i r Hr).
  rewrite findIndex_first.
  - rewrite length_take. lia.
  - eapply Forall_impl; [exact Hno|]. intros x Hx.
    apply bool_decide_eq_false_2. congruence.
  - apply bool_decide_eq_true_2. congruence.
Qed.

Lemma onDragEnd_in_range s ev o i j :
  over_id ev = Some o →
  identifies (dataSource s) (active_id ev) i →
  identifies (dataSource s) o j →
  i ≠ j →
  ∃ r, dataSource s !! i = Some r ∧
    onDragEnd ev s
    = Some (setDataSource (take j (delete i (dataSource s)) ++
                           r :: drop j (delete i (dataSource s))) s).
Proof.
  intros Ho Hi Hj Hij.
  destruct (Hi) as [(r & Hr & Hk) _]. destruct (Hj) as [(r' & Hr' & _) _].
  exists r. split; [done|].
  unfold onDragEnd. rewrite Ho.
  rewrite bool_decide_eq_true_2; cycle 1.
  { intros [= Heq]. apply Hij. rewrite <- Heq in Hj.
    destruct Hi as [_ Hi1], Hj as [(r2 & Hr2 & Hk2) Hj1].
    destruct (Nat.lt_total i j) as [Hlt|[Heq'|Hlt]]; [|done|].
    - by destruct (Hj1 i r Hlt Hr).
    - by destruct (Hi1 j r2 Hlt Hr2). }
  rewrite (identifies_findIndex _ _ i Hi), (identifies_findIndex _ _ j Hj).
  rewrite (arrayMove_in_range _ i j r Hr) by by eapply lookup_lt_Some.
  done.
Qed.

(** C1. When the keys of the dragged row and of the drop target identify
    the rows at two different positions [i] and [j], the drag leaves the list
    with the dragged row at position [j], the target's, and with the other
    rows in the order they had: without the moved row the new list is the old
    one.  The length is the same. *)
Theorem onDragEnd_moves_row (s : State) (ev : DragEndEvent) (o : string)
    (i j : nat) :
  over_id ev = Some o →
  identifies (dataSource s) (active_id ev) i →
  identifies (dataSource s) o j →
  i ≠ j →
  ∃ r l, dataSource s !! i = Some r ∧
    onDragEnd ev s = Some (setDataSource l s) ∧
    l !! j = Some r ∧
    delete j l = delete i (dataSource s) ∧
    length l = length (dataSource s).
Proof.
  intros Ho Hi Hj Hij.
  destruct (onDragEnd_in_range s ev o i j Ho Hi Hj Hij) as (r & Hr & Hres).
  destruct Hj as [(r' & Hr' & _) _].
  pose proof (lookup_lt_Some _ _ _ Hr) as Hlti.
  pose proof (lookup_lt_Some _ _ _ Hr') as Hltj.
  assert (length (delete i (dataSource s)) = pred (length (dataSource s))) as Hlen
    by (rewrite length_delete by eauto; lia).
  eexists r, _. split; [done|]. split; [exact Hres|]. repeat split.
  - apply list_lookup_middle. rewrite length_take. lia.
  - apply moved_delete. lia.
  - rewrite length_app, length_take. simpl. rewrite length_drop. lia.
Qed.

Lemma identifies_abc_0 : identifies [row "a"; row "b"; row "c"] "a" 0.
Proof. split; [by exists (row "a")|]. intros j r Hj. lia. Qed.

Lemma identifies_abc_2 : identifies [row "a"; row "b"; row "c"] "c" 2.
Proof.
  split; [by exists (row "c")|]. intros j r Hj Hr.
  destruct j as [|[|j]]; [| |lia]; simpl in Hr; by inversion Hr.
Qed.

Lemma onDragEnd_moves_row_witness :
  ∃ r l, [row "a"; row "b"; row "c"] !! 0%nat = Some r ∧
    onDragEnd (mkDragEnd "a" (Some "c")) (mkState [row "a"; row "b"; row "c"] "" [])
    = Some (setDataSource l (mkState [row "a"; row "b"; row "c"] "" [])) ∧
    l !! 2%nat = Some r ∧
    delete 2%nat l = delete 0%nat [row "a"; row "b"; row "c"] ∧
    length l = 3%nat.
Proof.
  apply (onDragEnd_moves_row (mkState [row "a"; row "b"; row "c"] "" [])
           (mkDragEnd "a" (Some "c")) "c" 0 2).
  - reflexivity.
  - exact identifies_abc_0.
  - exact identifies_abc_2.
  - lia.
Defined.

(** C2, as the specification words it, does not hold: dragging the first of
    three rows onto the third leaves the second row first, not the third. *)
Lemma drag_is_not_a_swap : ¬ drag_swaps_rows.
Proof.
  intros H.
  destruct (H (mkState [row "a"; row "b"; row "c"] "" [])
              (mkDragEnd "a" (Some "c")) "c" 0%nat 2%nat eq_refl
              identifies_abc_0 identifies_abc_2 ltac:(lia))
    as (l & Hl & _ & H0 & _).
  vm_compute in Hl. injection Hl as <-. discriminate H0.
Qed.

(** C2, amended. When the keys of the dragged row and of the drop target
    identify the rows at two different positions [i] and [j], after the drag
    the dragged row is at position [j]; the rows from the target to the
    dragged row's neighbour have each moved one position towards [i]; the
    rows outside the two positions have stayed.  For two adjacent rows this
    is their exchange. *)
Theorem onDragEnd_shifts_rows (s : State) (ev : DragEndEvent) (o : string)
    (i j : nat) :
  over_id ev = Some o →
  identifies (dataSource s) (active_id ev) i →
  identifies (dataSource s) o j →
  i ≠ j →
  ∃ l, onDragEnd ev s = Some (setDataSource l s) ∧
    (∀ k, l !! k = dataSource s !! moved_from i j k) ∧
    l !! j = dataSource s !! i ∧
    (∀ k, (k < i)%nat → (k < j)%nat → l !! k = dataSource s !! k) ∧
    (∀ k, (i < k)%nat → (j < k)%nat → l !! k = dataSource s !! k) ∧
    (∀ k, (i ≤ k < j)%nat → l !! k = dataSource s !! S k) ∧
    (∀ k, (j < k ≤ i)%nat → l !! k = dataSource s !! pred k) ∧
    (i = S j ∨ j = S i → l !! i = dataSource s !! j).
Proof.
  intros Ho Hi Hj Hij.
  destruct (onDragEnd_in_range s ev o i j Ho Hi Hj Hij) as (r & Hr & Hres).
  destruct Hj as [(r' & Hr' & _) _].
  pose proof (lookup_lt_Some _ _ _ Hr') as Hltj.
  eexists. split; [exact Hres|].
  assert (∀ k, (take j (delete i (dataSource s)) ++
                r :: drop j (delete i (dataSource s))) !! k
               = dataSource s !! moved_from i j k) as Hall
    by (intros k; by apply moved_lookup).
  split; [exact Hall|].
  repeat split; intros; rewrite Hall; unfold moved_from;
    repeat case_decide; try lia; try done; f_equal; lia.
Qed.

Lemma onDragEnd_shifts_rows_witness :
  ∃ l, onDragEnd (mkDragEnd "a" (Some "c")) (mkState [row "a"; row "b"; row "c"] "" [])
       = Some (setDataSource l (mkState [row "a"; row "b"; row "c"] "" [])) ∧
       l !! 2%nat = Some (row "a") ∧ l !! 0%nat = Some (row "b").
Proof.
  destruct (onDragEnd_shifts_rows (mkState [row "a"; row "b"; row "c"] "" [])
              (mkDragEnd "a" (Some "c")) "c" 0 2 eq_refl
              identifies_abc_0 identifies_abc_2 ltac:(lia))
    as (l & Hl & Hall & _).
  exists l. split; [exact Hl|]. split; apply Hall.
Defined.

(** ** The keys stay pairwise distinct *)

Lemma onTableDetails_dataSource u s td :
  dataSource (onTableDetails (Some td) s u).1
  = match columnList td with
    | Some cl => imap (λ i t, with_key (u i) t) cl
    | None => []
    end.
Proof.
  unfold onTableDetails, gen_bind.
  destruct (columnList td) as [cl|]; [|done].
  pose proof (gen_map_with_key cl u) as Hmap.
  by destruct (gen_map _ cl u) as [l u'].
Qed.

Section FindIndexCases.
Context {T : Type}.
Implicit Types (p : T → bool) (a : list T).

(** What [findIndex] returns: [-1] when no element passes the test, and
    otherwise the position of the first one that does. *)
Lemma findIndex_cases p a :
  (findIndex p a = -1 ∧ Forall (λ x, p x = false) a) ∨
  (∃ l1 x l2, a = l1 ++ x :: l2 ∧ Forall (λ y, p y = false) l1 ∧ p x = true ∧
              findIndex p a = Z.of_nat (length l1)).
Proof.
  induction a as [|y a IH].
  - left. by split.
  - destruct (p y) eqn:Hy.
    + right. exists [], y, a. repeat split; try done. unfold findIndex. simpl.
      by rewrite Hy.
    + destruct IH as [[_ Hall]|(l1 & x & l2 & -> & Hl1 & Hx & _)].
      * left. assert (Forall (λ x, p x = false) (y :: a)) as H by by constructor.
        split; [|done]. by apply findIndex_none.
      * right. exists (y :: l1), x, l2.
        assert (Forall (λ z, p z = false) (y :: l1)) as H by by constructor.
        repeat split; try done. by apply (findIndex_first p (y :: l1)).
Qed.

Lemma findIndex_range p a :
  -1 ≤ findIndex p a < Z.of_nat (length a).
Proof.
  destruct (findIndex_cases p a) as [[-> _]|(l1 & x & l2 & -> & _ & _ & ->)].
  - lia.
  - rewrite length_app. simpl. lia.
Qed.

(** With a [from] that [findIndex] can return, [arrayMove] rearranges a
    non-empty array, whatever [to] is. *)
Lemma arrayMove_Permutation a (from to : Z) :
  a ≠ [] → -1 ≤ from < Z.of_nat (length a) →
  ∃ l, arrayMove a from to = Some l ∧ l ≡ₚ a.
Proof.
  intros Hne Hfrom.
  assert (0 < length a)%nat as Hlen by (destruct a; [done|simpl; lia]).
  unfold arrayMove. cbv zeta.
  set (s := Z.to_nat (splice_start (Z.of_nat (length a)) from)).
  assert (s < length a)%nat as Hs.
  { subst s. unfold splice_start. case_bool_decide; lia. }
  destruct (lookup_lt_is_Some_2 a s Hs) as [x Hx]. rewrite Hx.
  eexists. split; [done|].
  rewrite <- delete_take_drop, <- Permutation_middle, take_drop.
  symmetry. by apply delete_Permutation.
Qed.
End FindIndexCases.

Lemma setDataSource_same s : setDataSource (dataSource s) s = s.
Proof. by destruct s. Qed.

(** Move-up and move-down always succeed and rearrange the list. *)
Lemma moveData_Permutation a s :
  ∃ l, moveData a s = Some (setDataSource l s) ∧ l ≡ₚ dataSource s.
Proof.
  destruct (findIndex_cases (λ i, bool_decide (key i = editingKey s)) (dataSource s))
    as [[_ Hall]|(l1 & r & l2 & Hds & Hl1 & Hr & _)].
  - exists (dataSource s). rewrite setDataSource_same. split; [|done].
    apply moveData_no_row. eapply Forall_impl; [exact Hall|].
    intros x Hx. by apply bool_decide_eq_false in Hx.
  - apply bool_decide_eq_true in Hr.
    assert (no_key (editingKey s) l1) as Hno.
    { eapply Forall_impl; [exact Hl1|]. intros x Hx.
      by apply bool_decide_eq_false in Hx. }
    destruct a.
    + destruct l1 as [|q0 l1' _] using rev_ind.
      * exists (dataSource s). rewrite setDataSource_same. split; [|done].
        by apply (moveData_up_first r l2).
      * exists (l1' ++ r :: q0 :: l2). split.
        -- apply moveData_up_swap; [|done..]. by rewrite Hds, <- app_assoc.
        -- rewrite Hds, <- app_assoc. simpl.
           apply Permutation_app_head, Permutation_swap.
    + destruct l2 as [|q l2'].
      * exists (dataSource s). rewrite setDataSource_same. split; [|done].
        by apply (moveData_down_last l1 r).
      * exists (l1 ++ q :: r :: l2'). split.
        -- by apply moveData_down_swap.
        -- rewrite Hds. apply Permutation_app_head, Permutation_swap.
Qed.

(** A drag on a non-empty list always succeeds and rearranges the list. *)
Lemma onDragEnd_Permutation ev s :
  dataSource s ≠ [] →
  ∃ l, onDragEnd ev s = Some (setDataSource l s) ∧ l ≡ₚ dataSource s.
Proof.
  intros Hne. unfold onDragEnd. case_bool_decide.
  - edestruct (arrayMove_Permutation (dataSource s)) as (l & -> & Hl);
      [done|apply findIndex_range|].
    by exists l.
  - exists (dataSource s). by rewrite setDataSource_same.
Qed.

Lemma keys_with_field n v k l :
  keys ((λ item, if bool_decide (key item = k)
                 then with_field n v item else item) <$> l) = keys l.
Proof.
  unfold keys. rewrite <- list_fmap_compose. apply list_fmap_ext.
  intros i x _. simpl. case_bool_decide; [|done]. by destruct n.
Qed.

Lemma keys_imap_with_key (u : Uuids) cl :
  keys (imap (λ i t, with_key (u i) t) cl) = u <$> seq 0 (length cl).
Proof.
  unfold keys. rewrite fmap_imap, <- imap_seq_0. by apply imap_ext.
Qed.

Lemma NoDup_keys_filter k l :
  NoDup (keys l) → NoDup (keys (filter (λ i, key i ≠ k) l)).
Proof.
  intros H. apply (sublist_NoDup _ (keys l)); [done|].
  unfold keys. apply fmap_sublist, sublist_filter.
Qed.

Lemma arrayMove_Some_Permutation {T} (a l : list T) (from to : Z) :
  arrayMove a from to = Some l → l ≡ₚ a.
Proof.
  unfold arrayMove. cbv zeta.
  set (s := Z.to_nat (splice_start (Z.of_nat (length a)) from)).
  destruct (a !! s) as [x|] eqn:Hx; [|done]. intros [= <-].
  rewrite <- delete_take_drop, <- Permutation_middle, take_drop.
  symmetry. by apply delete_Permutation.
Qed.

Lemma onDragEnd_Some ev s s' :
  onDragEnd ev s = Some s' →
  dataSource s' ≡ₚ dataSource s ∧ editingKey s' = editingKey s.
Proof.
  unfold onDragEnd. case_bool_decide; [|by intros [= <-]].
  destruct (arrayMove _ _ _) as [l|] eqn:E; simpl; [|done].
  intros [= <-]. split; [|done]. by eapply arrayMove_Some_Permutation.
Qed.

Lemma moveData_Some a s s' :
  moveData a s = Some s' →
  dataSource s' ≡ₚ dataSource s ∧ editingKey s' = editingKey s.
Proof.
  destruct (moveData_Permutation a s) as (l & -> & Hl). by intros [= <-].
Qed.

(** C7. The keys of the rows are pairwise distinct in the initial state, and
    every event handled in a state where they are leaves them so in the next
    state: a reload, a row put in edit mode, a drag, a field edit, add,
    delete, move-up and move-down (and the answer of the backend call),
    provided the identifiers the event draws are fresh.  The one event that
    has no next state here is a drag that ends on an empty list. *)
Theorem keys_stay_distinct (u : Uuids) (s : State) (e : Event) :
  NoDup (keys (dataSource (initialState u).1)) ∧
  (NoDup (keys (dataSource s)) → fresh u s e →
   ∀ s', step u s e = Some s' → NoDup (keys (dataSource s'))) ∧
  (step u s e = None → ∃ ev, e = EvDragEnd ev ∧ dataSource s = []).
Proof.
  split; [apply NoDup_singleton|]. split.
  - intros Hnd Hfresh s' Hs.
    destruct e as [[td|]|p|record|ev|field| | |a]; cbn [step fresh] in *.
    + apply (inj Some) in Hs. subst s'.
      rewrite onTableDetails_dataSource. destruct (columnList td) as [cl|].
      * by rewrite keys_imap_with_key.
      * apply NoDup_nil_2.
    + by injection Hs as <-.
    + injection Hs as <-. by destruct p.
    + by injection Hs as <-.
    + apply onDragEnd_Some in Hs as [Hl _]. unfold keys. by rewrite Hl.
    + injection Hs as <-. simpl. by rewrite keys_with_field.
    + injection Hs as <-. simpl. unfold keys. rewrite fmap_snoc.
      apply NoDup_app. repeat split; [done| |apply NoDup_singleton].
      intros k Hk ->%list_elem_of_singleton. by apply Hfresh.
    + injection Hs as <-. simpl. by apply NoDup_keys_filter.
    + apply moveData_Some in Hs as [Hl _]. unfold keys. by rewrite Hl.
  - destruct e as [[td|]|p|record|ev|field| | |a]; cbn [step]; try done.
    + intros Hs. exists ev. split; [done|].
      destruct (decide (dataSource s = [])) as [|Hne]; [done|].
      destruct (onDragEnd_Permutation ev s Hne) as (l & Hl & _). congruence.
    + intros Hs. destruct (moveData_Permutation a s) as (l & Hl & _). congruence.
Qed.

Lemma keys_stay_distinct_witness :
  NoDup (keys (dataSource (mkState [row "k0"; row "k1"; row "k2"] "k2" []))).
Proof.
  apply (proj1 (proj2 (keys_stay_distinct (λ _, "k2")
                         (mkState [row "k0"; row "k1"] "k1" []) EvAdd))).
  - apply (@bool_decide_unpack _ (NoDup_dec _)). vm_compute. exact I.
  - apply (@bool_decide_unpack _ (not_dec (list_elem_of_dec _ _))).
    vm_compute. exact I.
  - reflexivity.
Defined.


(** * Further properties of the component *)

(** ** Edit mode *)

Lemma keys_lookup (l : list IColumnItem) i r :
  l !! i = Some r → keys l !! i = Some (key r).
Proof. intros H. unfold keys. by rewrite list_lookup_fmap, H. Qed.

(** X1. With pairwise distinct keys, a click on a cell of the row at
    position [i] puts that row, and no other row of the list, in edit
    mode. *)
Theorem edit_selects_one_row (s : State) (record : IColumnItem) (i : nat) :
  NoDup (keys (dataSource s)) →
  dataSource s !! i = Some record →
  ∀ j r, dataSource s !! j = Some r →
    (isEditing (edit record s) r = true ↔ j = i).
Proof.
  intros Hnd Hi j r Hj. unfold isEditing, edit. simpl.
  rewrite bool_decide_eq_true. split.
  - intros Heq. apply (NoDup_lookup _ j i (key r) Hnd).
    + by apply keys_lookup.
    + rewrite Heq. by apply keys_lookup.
  - intros ->. congruence.
Qed.

Lemma edit_selects_one_row_witness :
  isEditing (edit (row "b") (mkState [row "a"; row "b"] "" [])) (row "a") = true
  ↔ 0%nat = 1%nat.
Proof.
  apply (edit_selects_one_row (mkState [row "a"; row "b"] "" []) (row "b") 1).
  - apply (@bool_decide_unpack _ (NoDup_dec _)). vm_compute. exact I.
  - reflexivity.
  - reflexivity.
Defined.

(** ** Field edits *)

Lemma fmap_no_key k (f : IColumnItem → IColumnItem) l :
  no_key k l →
  (λ item, if bool_decide (key item = k) then f item else item) <$> l = l.
Proof.
  induction 1 as [|r l Hr _ IH]; [done|].
  rewrite fmap_cons, IH. by rewrite bool_decide_eq_false_2.
Qed.

Lemma handelFieldsChange_dataSource field s :
  dataSource (handelFieldsChange field s)
  = (λ item, if bool_decide (key item = editingKey s)
             then with_field (field_name field) (stored_value field) item
             else item) <$> dataSource s.
Proof. unfold handelFieldsChange, stored_value. by destruct (field_name field). Qed.

Lemma handelFieldsChange_frame field s :
  handelFieldsChange field s
  = setDataSource (dataSource (handelFieldsChange field s)) s.
Proof. done. Qed.

Lemma handelFieldsChange_middle field s l1 r l2 :
  dataSource s = l1 ++ r :: l2 →
  no_key (editingKey s) l1 → no_key (editingKey s) l2 →
  key r = editingKey s →
  handelFieldsChange field s
  = setDataSource
      (l1 ++ with_field (field_name field) (stored_value field) r :: l2) s.
Proof.
  intros Hds H1 H2 Hr. rewrite handelFieldsChange_frame. f_equal.
  rewrite handelFieldsChange_dataSource, Hds.
  rewrite fmap_app, fmap_cons, !fmap_no_key by done.
  by rewrite bool_decide_eq_true_2.
Qed.

Lemma NoDup_keys_editing s l1 r l2 :
  NoDup (keys (dataSource s)) → dataSource s = l1 ++ r :: l2 →
  key r = editingKey s →
  no_key (editingKey s) l1 ∧ no_key (editingKey s) l2.
Proof.
  intros Hnd Hds Hr. rewrite Hds in Hnd. rewrite <- Hr.
  by apply NoDup_keys_middle.
Qed.

(** X2. With pairwise distinct keys, a reported field change rewrites the
    row in edit mode and nothing else: in the list [l1 ++ r :: l2] with [r]
    the row with the edit key, [r] gets the changed field set to the stored
    value (the nullable flag as 1 or 0, other fields as reported) and keeps
    its key and its other fields; [l1] and [l2] stay. *)
Theorem handelFieldsChange_edits_one_row (s : State) (field : FieldData)
    (l1 l2 : list IColumnItem) (r : IColumnItem) :
  NoDup (keys (dataSource s)) →
  dataSource s = l1 ++ r :: l2 →
  key r = editingKey s →
  handelFieldsChange field s
  = setDataSource
      (l1 ++ with_field (field_name field) (stored_value field) r :: l2) s.
Proof.
  intros Hnd Hds Hr.
  destruct (NoDup_keys_editing s l1 r l2 Hnd Hds Hr) as [H1 H2].
  by apply handelFieldsChange_middle.
Qed.

Lemma handelFieldsChange_edits_one_row_witness :
  handelFieldsChange (mkFieldData FName (JStr "id"))
    (mkState [row "a"; row "b"] "b" [])
  = mkState [row "a"; with_field FName (JStr "id") (row "b")] "b" [].
Proof.
  apply (handelFieldsChange_edits_one_row (mkState [row "a"; row "b"] "b" [])
           (mkFieldData FName (JStr "id")) [row "a"] [] (row "b")).
  - apply (@bool_decide_unpack _ (NoDup_dec _)). vm_compute. exact I.
  - reflexivity.
  - reflexivity.
Defined.

(** X3. A change of the nullable field reported for the row in edit mode
    stores 1 in that row when the reported value is truthy and 0 when it is
    not.  While the row is in edit mode its checkbox is the form's; once
    another row has been clicked, the row's plain checkbox, checked when the
    stored flag is 1, shows the truthiness of the value that was reported. *)
Theorem nullable_checkbox_shows_value (s : State) (v : jsval)
    (l1 l2 : list IColumnItem) (r record : IColumnItem) :
  NoDup (keys (dataSource s)) →
  dataSource s = l1 ++ r :: l2 →
  key r = editingKey s →
  key record ≠ key r →
  ∃ r', dataSource (handelFieldsChange (mkFieldData FNullable v) s) !! length l1
        = Some r' ∧
        key r' = key r ∧
        nullable r' = (if truthy v then JNum 1 else JNum 0) ∧
        renderNullable (handelFieldsChange (mkFieldData FNullable v) s) r'
        = FormCheckbox ∧
        renderNullable
          (edit record (handelFieldsChange (mkFieldData FNullable v) s)) r'
        = StaticCheckbox (truthy v).
Proof.
  intros Hnd Hds Hr Hrec.
  destruct (NoDup_keys_editing s l1 r l2 Hnd Hds Hr) as [H1 H2].
  rewrite (handelFieldsChange_middle _ s l1 r l2 Hds H1 H2 Hr).
  eexists. split; [by apply list_lookup_middle|].
  unfold renderNullable, isEditing, edit, stored_value. simpl.
  repeat split.
  - by rewrite bool_decide_eq_true_2.
  - rewrite bool_decide_eq_false_2 by congruence.
    by destruct (truthy v).
Qed.

Lemma nullable_checkbox_shows_value_witness :
  ∃ r', dataSource (handelFieldsChange (mkFieldData FNullable (JStr "yes"))
                      (mkState [row "a"; row "b"] "b" [])) !! 1%nat = Some r' ∧
        key r' = "b"%string ∧
        nullable r' = JNum 1 ∧
        renderNullable (handelFieldsChange (mkFieldData FNullable (JStr "yes"))
                          (mkState [row "a"; row "b"] "b" [])) r'
        = FormCheckbox ∧
        renderNullable
          (edit (row "a")
             (handelFieldsChange (mkFieldData FNullable (JStr "yes"))
                (mkState [row "a"; row "b"] "b" []))) r'
        = StaticCheckbox true.
Proof.
  apply (nullable_checkbox_shows_value (mkState [row "a"; row "b"] "b" [])
           (JStr "yes") [row "a"] [] (row "b") (row "a")).
  - apply (@bool_decide_unpack _ (NoDup_dec _)). vm_compute. exact I.
  - reflexivity.
  - reflexivity.
  - discriminate.
Defined.

(** ** After a delete *)

Lemma no_key_filtered k l : no_key k (filter (λ i, key i ≠ k) l).
Proof.
  apply Forall_forall. intros r Hr. by apply list_elem_of_filter in Hr as [Hr _].
Qed.

Lemma handelFieldsChange_no_row field s :
  no_key (editingKey s) (dataSource s) → handelFieldsChange field s = s.
Proof.
  intros Hno. rewrite handelFieldsChange_frame, handelFieldsChange_dataSource.
  rewrite fmap_no_key by done. by destruct s.
Qed.

(** X4. Delete leaves no row with the edit key, whether one row had it or
    several: afterwards no row is in edit mode, and a second delete, a
    move in either direction and a reported field change all leave the
    state as it is. *)
Theorem deleteData_clears_edit_mode (s : State) (a : Action) (field : FieldData) :
  (∀ r, r ∈ dataSource (deleteData s) → isEditing (deleteData s) r = false) ∧
  deleteData (deleteData s) = deleteData s ∧
  moveData a (deleteData s) = Some (deleteData s) ∧
  handelFieldsChange field (deleteData s) = deleteData s.
Proof.
  assert (no_key (editingKey (deleteData s)) (dataSource (deleteData s))) as Hno
    by apply no_key_filtered.
  repeat split.
  - intros r Hr. apply bool_decide_eq_false_2.
    by apply (proj1 (Forall_forall _ _) Hno).
  - unfold deleteData at 1. rewrite no_key_filter by done.
    apply setDataSource_same.
  - by apply moveData_no_row.
  - by apply handelFieldsChange_no_row.
Qed.

Lemma deleteData_clears_edit_mode_witness :
  isEditing (deleteData (mkState [row "a"; row "b"; row "a"] "a" [])) (row "b")
  = false.
Proof.
  apply (proj1 (deleteData_clears_edit_mode
                  (mkState [row "a"; row "b"; row "a"] "a" []) up
                  (mkFieldData FName JNull))).
  apply list_elem_of_here.
Defined.

(** X5. A click on a row followed by delete removes that row and only it,
    when the keys are pairwise distinct: of [l1 ++ r :: l2] it leaves
    [l1 ++ l2]. *)
Theorem edit_then_delete (s : State) (l1 l2 : list IColumnItem) (r : IColumnItem) :
  NoDup (keys (dataSource s)) →
  dataSource s = l1 ++ r :: l2 →
  deleteData (edit r s) = mkState (l1 ++ l2) (key r) (databaseFieldTypeList s).
Proof.
  intros Hnd Hds. rewrite Hds in Hnd.
  apply NoDup_keys_middle in Hnd as [H1 H2].
  unfold deleteData, edit. simpl. rewrite Hds.
  rewrite filter_app, filter_cons_False by (by intros []).
  by rewrite !no_key_filter.
Qed.

Lemma edit_then_delete_witness :
  deleteData (edit (row "b") (mkState [row "a"; row "b"; row "c"] "" []))
  = mkState [row "a"; row "c"] "b" [].
Proof.
  apply (edit_then_delete (mkState [row "a"; row "b"; row "c"] "" [])
           [row "a"] [row "c"] (row "b")).
  - apply (@bool_decide_unpack _ (NoDup_dec _)). vm_compute. exact I.
  - reflexivity.
Defined.

(** ** Add, then delete or move *)

Lemma no_key_keys k l : k ∉ keys l → no_key k l.
Proof.
  intros Hk. apply Forall_forall. intros r Hr Heq. apply Hk.
  rewrite <- Heq. by apply list_elem_of_fmap_2.
Qed.

(** X6. Add followed by delete gives the column list back, when the
    identifier drawn is fresh: the added row is the one removed.  The edit
    key stays the new identifier, which no row has any more. *)
Theorem add_then_delete (u : Uuids) (s : State) :
  u 0%nat ∉ keys (dataSource s) →
  deleteData (addData s u).1
  = mkState (dataSource s) (u 0%nat) (databaseFieldTypeList s).
Proof.
  intros Hfresh. apply no_key_keys in Hfresh.
  unfold deleteData. simpl.
  rewrite filter_app, no_key_filter by done.
  rewrite filter_cons_False by (by intros []).
  by rewrite filter_nil, app_nil_r.
Qed.

Lemma add_then_delete_witness :
  deleteData (addData (mkState [row "a"] "a" []) (λ _, "k")).1
  = mkState [row "a"] "k" [].
Proof.
  apply (add_then_delete (λ _, "k") (mkState [row "a"] "a" [])).
  apply (@bool_decide_unpack _ (not_dec (list_elem_of_dec _ _))).
  vm_compute. exact I.
Defined.

(** X7. Right after an add with a fresh identifier the new row is the last
    one and in edit mode: move-down leaves the state as it is, and move-up
    exchanges the new row with the row that was last before. *)
Theorem add_then_move (u : Uuids) (s : State) (l : list IColumnItem)
    (q : IColumnItem) :
  u 0%nat ∉ keys (dataSource s) →
  dataSource s = l ++ [q] →
  moveData down (addData s u).1 = Some (addData s u).1 ∧
  moveData up (addData s u).1
  = Some (mkState (l ++ [row (u 0%nat); q]) (u 0%nat) (databaseFieldTypeList s)).
Proof.
  intros Hfresh Hds. apply no_key_keys in Hfresh. split.
  - by apply (moveData_down_last (dataSource s) (row (u 0%nat))).
  - rewrite (moveData_up_swap l q (row (u 0%nat)) []); [done| | |done].
    + simpl. by rewrite Hds, <- app_assoc.
    + simpl. by rewrite <- Hds.
Qed.

Lemma add_then_move_witness :
  moveData up (addData (mkState [row "a"; row "b"] "" []) (λ _, "k")).1
  = Some (mkState [row "a"; row "k"; row "b"] "k" []).
Proof.
  apply (add_then_move (λ _, "k") (mkState [row "a"; row "b"] "" [])
           [row "a"] (row "b")).
  - apply (@bool_decide_unpack _ (not_dec (list_elem_of_dec _ _))).
    vm_compute. exact I.
  - reflexivity.
Defined.

(** ** Moves undo each other *)

Lemma setDataSource_twice l l' s :
  setDataSource l (setDataSource l' s) = setDataSource l s.
Proof. done. Qed.

(** X8. Move-up followed by move-down gives the state back: when the first
    row with the edit key is not the first row of the list, the two moves
    exchange it with the row before it and back. *)
Theorem moveData_up_then_down (s : State) (l1 l2 : list IColumnItem)
    (q r : IColumnItem) :
  dataSource s = l1 ++ q :: r :: l2 →
  no_key (editingKey s) (l1 ++ [q]) →
  key r = editingKey s →
  ∃ s1, moveData up s = Some s1 ∧ dataSource s1 = l1 ++ r :: q :: l2 ∧
        moveData down s1 = Some s.
Proof.
  intros Hds Hno Hr. eexists. split; [by apply moveData_up_swap|].
  split; [done|].
  apply Forall_app in Hno as [Hno1 _].
  rewrite (moveData_down_swap l1 r q l2) by done.
  by rewrite setDataSource_twice, <- Hds, setDataSource_same.
Qed.

Lemma moveData_up_then_down_witness :
  ∃ s1, moveData up (mkState [row "a"; row "b"; row "c"] "b" []) = Some s1 ∧
        dataSource s1 = [row "b"; row "a"; row "c"] ∧
        moveData down s1 = Some (mkState [row "a"; row "b"; row "c"] "b" []).
Proof.
  apply (moveData_up_then_down (mkState [row "a"; row "b"; row "c"] "b" [])
           [] [row "c"] (row "a") (row "b")).
  - reflexivity.
  - repeat constructor. discriminate.
  - reflexivity.
Defined.

(** X9. Move-down followed by move-up gives the state back, when the row
    after the first row with the edit key does not have the edit key too
    (with a second row of that key next to it, the move-up would take that
    one). *)
Theorem moveData_down_then_up (s : State) (l1 l2 : list IColumnItem)
    (q r : IColumnItem) :
  dataSource s = l1 ++ r :: q :: l2 →
  no_key (editingKey s) (l1 ++ [q]) →
  key r = editingKey s →
  ∃ s1, moveData down s = Some s1 ∧ dataSource s1 = l1 ++ q :: r :: l2 ∧
        moveData up s1 = Some s.
Proof.
  intros Hds Hno Hr. eexists.
  pose proof Hno as [Hno1 _]%Forall_app.
  split; [by apply moveData_down_swap|]. split; [done|].
  rewrite (moveData_up_swap l1 q r l2) by done.
  by rewrite setDataSource_twice, <- Hds, setDataSource_same.
Qed.

Lemma moveData_down_then_up_witness :
  ∃ s1, moveData down (mkState [row "a"; row "b"; row "c"] "b" []) = Some s1 ∧
        dataSource s1 = [row "a"; row "c"; row "b"] ∧
        moveData up s1 = Some (mkState [row "a"; row "b"; row "c"] "b" []).
Proof.
  apply (moveData_down_then_up (mkState [row "a"; row "b"; row "c"] "b" [])
           [row "a"] [] (row "c") (row "b")).
  - reflexivity.
  - repeat constructor; discriminate.
  - reflexivity.
Defined.

(** Without that condition the round trip fails: with two adjacent rows of
    the edit key, down then up ends elsewhere. *)
Lemma moveData_down_then_up_needs_other_key :
  (moveData down (mkState [row "a"; row "b"; row "b"] "b" [])
     ≫= moveData up)
  = Some (mkState [row "b"; row "a"; row "b"] "b" []).
Proof. reflexivity. Qed.

(** X10. Move-up and move-down always give a next state, and in it the
    rows are the rows of before, rearranged; the edit key and the type
    options are the same. *)
Theorem moveData_keeps_rows (a : Action) (s : State) :
  ∃ s', moveData a s = Some s' ∧
        dataSource s' ≡ₚ dataSource s ∧
        editingKey s' = editingKey s ∧
        databaseFieldTypeList s' = databaseFieldTypeList s.
Proof.
  destruct (moveData_Permutation a s) as (l & -> & Hl). by eexists.
Qed.

(** ** Drags *)

(** X11. A drag that ends on a non-empty list, whatever the identifiers of
    the event, gives a next state whose rows are the rows of before,
    rearranged; the edit key and the type options are the same. *)
Theorem onDragEnd_keeps_rows (ev : DragEndEvent) (s : State) :
  dataSource s ≠ [] →
  ∃ s', onDragEnd ev s = Some s' ∧
        dataSource s' ≡ₚ dataSource s ∧
        editingKey s' = editingKey s ∧
        databaseFieldTypeList s' = databaseFieldTypeList s.
Proof.
  intros Hne. destruct (onDragEnd_Permutation ev s Hne) as (l & -> & Hl).
  by eexists.
Qed.

Lemma onDragEnd_keeps_rows_witness :
  ∃ s', onDragEnd (mkDragEnd "zz" (Some "b")) (mkState [row "a"; row "b"] "" [])
        = Some s' ∧
        dataSource s' ≡ₚ [row "a"; row "b"] ∧
        editingKey s' = ""%string ∧
        databaseFieldTypeList s' = [].
Proof.
  apply (onDragEnd_keeps_rows (mkDragEnd "zz" (Some "b"))
           (mkState [row "a"; row "b"] "" [])).
  discriminate.
Defined.

Lemma arrayMove_to_end {T} (a : list T) (i : nat) (x : T) :
  a !! i = Some x → arrayMove a (Z.of_nat i) (-1) = Some (delete i a ++ [x]).
Proof.
  intros Hi. pose proof (lookup_lt_Some _ _ _ Hi) as Hlt.
  assert (length (delete i a) = pred (length a)) as Hlen
    by (rewrite length_delete by eauto; lia).
  unfold arrayMove. cbv zeta.
  rewrite (bool_decide_eq_true_2 (-1 < 0)) by lia.
  rewrite (splice_start_in_range _ (Z.of_nat i)) by lia.
  rewrite Nat2Z.id, Hi, <- delete_take_drop.
  rewrite splice_start_in_range by lia.
  replace (Z.to_nat (Z.of_nat (length a) + -1)) with (length (delete i a)) by lia.
  by rewrite take_ge, drop_ge by lia.
Qed.

(** X12. A row dropped on no target ([over] is null), or on a target whose
    identifier is the key of no row, goes to the end of the list: the other
    rows keep their order. *)
Theorem onDragEnd_without_target (s : State) (ev : DragEndEvent) (i : nat) :
  identifies (dataSource s) (active_id ev) i →
  Forall (λ r, Some (key r) ≠ over_id ev) (dataSource s) →
  ∃ r, dataSource s !! i = Some r ∧
       onDragEnd ev s = Some (setDataSource (delete i (dataSource s) ++ [r]) s).
Proof.
  intros Hi Hover. destruct (Hi) as [(r & Hr & Hk) _].
  exists r. split; [done|]. unfold onDragEnd.
  rewrite bool_decide_eq_true_2; cycle 1.
  { rewrite <- Hk. apply (proj1 (Forall_forall _ _) Hover).
    by eapply list_elem_of_lookup_2. }
  rewrite (identifies_findIndex _ _ i Hi).
  rewrite (findIndex_none (λ i0, key_is (key i0) (over_id ev))); cycle 1.
  { eapply Forall_impl; [exact Hover|]. intros x Hx.
    by apply bool_decide_eq_false_2. }
  by rewrite (arrayMove_to_end _ i r Hr).
Qed.

Lemma onDragEnd_without_target_witness :
  ∃ r, [row "a"; row "b"; row "c"] !! 0%nat = Some r ∧
       onDragEnd (mkDragEnd "a" None) (mkState [row "a"; row "b"; row "c"] "" [])
       = Some (setDataSource (delete 0%nat [row "a"; row "b"; row "c"] ++ [r])
                 (mkState [row "a"; row "b"; row "c"] "" [])).
Proof.
  apply (onDragEnd_without_target (mkState [row "a"; row "b"; row "c"] "" [])
           (mkDragEnd "a" None) 0).
  - exact identifies_abc_0.
  - repeat constructor; discriminate.
Defined.

(** ** A reload and the edit key *)

(** X13. A reload keeps the edit key while every row gets a new key: when
    the identifiers drawn differ from the edit key, no row is in edit mode
    afterwards, and delete and the two moves leave the reloaded list as it
    is until a row is clicked or added. *)
Theorem reload_leaves_no_row_editing (u : Uuids) (s : State) (td : TableDetails)
    (a : Action) :
  (∀ i, (i < length (default [] (columnList td)))%nat → u i ≠ editingKey s) →
  editingKey (onTableDetails (Some td) s u).1 = editingKey s ∧
  (∀ r, r ∈ dataSource (onTableDetails (Some td) s u).1 →
        isEditing (onTableDetails (Some td) s u).1 r = false) ∧
  deleteData (onTableDetails (Some td) s u).1 = (onTableDetails (Some td) s u).1 ∧
  moveData a (onTableDetails (Some td) s u).1
  = Some (onTableDetails (Some td) s u).1.
Proof.
  intros Hu.
  assert (editingKey (onTableDetails (Some td) s u).1 = editingKey s) as Hk.
  { unfold onTableDetails, gen_bind. destruct (columnList td); [|done].
    by destruct (gen_map _ _ _). }
  assert (no_key (editingKey (onTableDetails (Some td) s u).1)
            (dataSource (onTableDetails (Some td) s u).1)) as Hno.
  { rewrite Hk, onTableDetails_dataSource.
    destruct (columnList td) as [cl|]; [|constructor]. simpl in Hu.
    apply Forall_forall. intros r Hr.
    apply list_elem_of_lookup in Hr as [i Hi].
    rewrite list_lookup_imap in Hi.
    destruct (cl !! i) as [t|] eqn:Ht; [|done]. simpl in Hi.
    injection Hi as <-. simpl. apply Hu. by eapply lookup_lt_Some. }
  split; [done|]. repeat split.
  - intros r Hr. apply bool_decide_eq_false_2.
    by apply (proj1 (Forall_forall _ _) Hno).
  - unfold deleteData. rewrite no_key_filter by done. apply setDataSource_same.
  - by apply moveData_no_row.
Qed.

Lemma reload_leaves_no_row_editing_witness :
  deleteData (onTableDetails (Some (mkTableDetails (Some [row "x"; row "y"])))
                (mkState [row "a"] "a" []) (λ n, if n is O then "k0" else "k1")).1
  = mkState [row "k0"; row "k1"] "a" [].
Proof.
  refine (eq_trans (proj1 (proj2 (proj2
    (reload_leaves_no_row_editing (λ n, if n is O then "k0" else "k1")
       (mkState [row "a"] "a" [])
       (mkTableDetails (Some [row "x"; row "y"])) up _))))
    eq_refl).
  intros [|[|i]] Hi; simpl in *; [discriminate|discriminate|lia].
Defined.

(** ** What an event leaves alone *)

(** X14. What changes what.  Only a click on a row and add change the edit
    key.  Only a reload, add and delete change the number of rows: add
    makes it one more, delete never makes it more, and a row put in edit
    mode, a drag, a field edit, a move and the backend's answer leave it as
    it is. *)
Theorem step_frame (u : Uuids) (s s' : State) (e : Event) :
  step u s e = Some s' →
  match e with
  | EvEdit _ | EvAdd => True
  | _ => editingKey s' = editingKey s
  end ∧
  match e with
  | EvTableDetails (Some _) => True
  | EvAdd => length (dataSource s') = S (length (dataSource s))
  | EvDelete => (length (dataSource s') ≤ length (dataSource s))%nat
  | _ => length (dataSource s') = length (dataSource s)
  end.
Proof.
  destruct e as [[td|]|p|record|ev|field| | |a]; cbn [step]; intros Hs.
  - injection Hs as <-. split; [|done].
    unfold onTableDetails, gen_bind. destruct (columnList td); [|done].
    by destruct (gen_map _ _ _).
  - by injection Hs as <-.
  - injection Hs as <-. by destruct p.
  - by injection Hs as <-.
  - apply onDragEnd_Some in Hs as [Hl Hk]. by rewrite Hl.
  - injection Hs as <-. split; [done|]. simpl. by rewrite length_fmap.
  - injection Hs as <-. split; [done|]. simpl. rewrite length_app. simpl. lia.
  - injection Hs as <-. split; [done|]. simpl. apply length_filter.
  - apply moveData_Some in Hs as [Hl Hk]. by rewrite Hl.
Qed.

Lemma step_frame_witness :
  editingKey (mkState [row "b"; row "a"] "b" []) = "b"%string ∧
  length (dataSource (mkState [row "b"; row "a"] "b" [])) = 2%nat.
Proof.
  exact (step_frame (λ _, "") (mkState [row "a"; row "b"] "b" [])
           (mkState [row "b"; row "a"] "b" []) (EvMove up) eq_refl).
Defined.

(** ** The panel toggle's icons *)

(** X15. The two icons the panel toggle shows determine the two flags: two
    layouts with the same icons are the same layout. *)
Theorem panelIcons_inj (l l' : Layout) :
  panelIcons l = panelIcons l' → l = l'.
Proof.
  destruct l as [[] []], l' as [[] []]; unfold panelIcons; simpl;
    intros [= ]; done.
Qed.

Lemma panelIcons_inj_witness : mkLayout true false = mkLayout true false.
Proof. exact (panelIcons_inj (mkLayout true false) (mkLayout true false) eq_refl). Defined.

(** ** Every reachable state *)

Lemma step_keeps_distinct u s e :
  NoDup (keys (dataSource s)) → fresh u s e → draggable s e →
  ∃ s', step u s e = Some s' ∧ NoDup (keys (dataSource s')).
Proof.
  intros Hnd Hfresh Hdrag.
  destruct e as [[td|]|p|record|ev|field| | |a]; cbn [step fresh draggable] in *.
  - eexists. split; [done|].
    rewrite onTableDetails_dataSource. destruct (columnList td) as [cl|].
    + by rewrite keys_imap_with_key.
    + apply NoDup_nil_2.
  - by eexists.
  - eexists. split; [done|]. by destruct p.
  - by eexists.
  - destruct (onDragEnd_Permutation ev s Hdrag) as (l & -> & Hl).
    eexists. split; [done|]. simpl. unfold keys. by rewrite Hl.
  - eexists. split; [done|]. simpl. by rewrite keys_with_field.
  - eexists. split; [done|]. simpl. unfold keys. rewrite fmap_snoc.
    apply NoDup_app. repeat split; [done| |apply NoDup_singleton].
    intros k Hk ->%list_elem_of_singleton. by apply Hfresh.
  - eexists. split; [done|]. simpl. by apply NoDup_keys_filter.
  - destruct (moveData_Permutation a s) as (l & -> & Hl).
    eexists. split; [done|]. simpl. unfold keys. by rewrite Hl.
Qed.

Lemma run_keeps_distinct tr s :
  NoDup (keys (dataSource s)) → admissible s tr →
  ∃ s', run s tr = Some s' ∧ NoDup (keys (dataSource s')).
Proof.
  revert s. induction tr as [|[u e] tr IH]; intros s Hnd Hadm.
  - by exists s.
  - destruct Hadm as (Hfresh & Hdrag & Hrest).
    destruct (step_keeps_distinct u s e Hnd Hfresh Hdrag) as (s1 & Hs1 & Hnd1).
    destruct (IH s1 Hnd1 (Hrest s1 Hs1)) as (s' & Hrun & Hnd').
    exists s'. split; [|done]. simpl. by rewrite Hs1.
Qed.

(** X16. Every admissible sequence of events is handled to the end from the
    initial state, and in the state reached the column list the parent reads
    through [getColumnListInfo] has pairwise distinct keys and at most one
    of its rows is in edit mode. *)
Theorem reachable_state_sound (u0 : Uuids) (tr : list (Uuids * Event)) :
  admissible (initialState u0).1 tr →
  ∃ s, run (initialState u0).1 tr = Some s ∧
       NoDup (keys (getColumnListInfo s)) ∧
       ∀ i j r r',
         getColumnListInfo s !! i = Some r →
         getColumnListInfo s !! j = Some r' →
         isEditing s r = true → isEditing s r' = true → i = j.
Proof.
  intros Hadm.
  destruct (run_keeps_distinct tr (initialState u0).1) as (s & Hrun & Hnd);
    [apply NoDup_singleton|done|].
  exists s. split; [done|]. split; [done|].
  unfold getColumnListInfo, isEditing. intros i j r r' Hi Hj Hr Hr'.
  apply bool_decide_eq_true in Hr, Hr'.
  apply (NoDup_lookup _ i j (key r) Hnd).
  - unfold keys. by rewrite list_lookup_fmap, Hi.
  - unfold keys. rewrite list_lookup_fmap, Hj. simpl. congruence.
Qed.

Lemma reachable_state_sound_witness :
  ∃ s, run (initialState (λ _, "k0")).1
         [(λ _, "k1", EvAdd); (λ _, "", EvMove up)] = Some s ∧
       NoDup (keys (getColumnListInfo s)) ∧
       ∀ i j r r',
         getColumnListInfo s !! i = Some r →
         getColumnListInfo s !! j = Some r' →
         isEditing s r = true → isEditing s r' = true → i = j.
Proof.
  apply (reachable_state_sound (λ _, "k0")
           [(λ _, "k1", EvAdd); (λ _, "", EvMove up)]).
  split.
  - apply (@bool_decide_unpack _ (not_dec (list_elem_of_dec _ _))).
    vm_compute. exact I.
  - split; [exact I|]. intros s' Hs'. repeat split.
Defined.
